(** * ozo: the type system of [include/ozo/type_traits.h]

    A shallow embedding of the PostgreSQL type mapping of ozo: the
    nullable protocol ([is_null], [allocate_nullable], [init_nullable],
    [reset_nullable], [unwrap_nullable]), the type traits table built by
    the [OZO_PG_DEFINE_*] macros, [size_of], and the OID map
    ([register_types], [set_type_oid], [type_oid], [accepts_oid],
    [empty]).

    The header is template code: most of what it decides is decided by
    the compiler.  A template instantiation that the compiler rejects is
    a value [Ill_formed] of the [result] type below; everything else is
    an ordinary function. *)

From Stdlib Require Import ZArith String List Bool Lia.
From stdpp Require Import base decidable option list strings gmap.

Local Open Scope Z_scope.
Local Open Scope string_scope.

(** ** Outcome of instantiating a template *)

Inductive result (A : Type) : Type :=
| Ok (a : A)
| Ill_formed (diagnostic : string).
Arguments Ok {A} a.
Arguments Ill_formed {A} diagnostic.

Definition bind {A B} (r : result A) (k : A -> result B) : result B :=
  match r with
  | Ok a => k a
  | Ill_formed d => Ill_formed d
  end.

Definition is_Ok {A} (r : result A) : bool :=
  match r with Ok _ => true | Ill_formed _ => false end.

(** ** The C++ types the header talks about

    Types are cv-unqualified object types, so [std::decay_t] is the
    identity on them.  [t_class] is a class type of the application,
    named by its qualified name, that is no range; [t_range] is any
    other class type that [std::size] and [std::begin] apply to, such
    as [std::list<T>] or [std::set<T>], with the type of its
    elements. *)

Inductive library := boost | std.

(** The [Deleter] of a [std::unique_ptr<T, Deleter>]: the default one,
    or a deleter of the application.  [regular] says whether that
    deleter is a class type that can be default constructed and move
    assigned, which is what [std::unique_ptr<T, Deleter>{}] and the
    assignment of it need; a pointer to function or a reference is
    not. *)
Inductive deleter :=
| default_delete               (* std::default_delete<T> *)
| custom_deleter (regular : bool).

Inductive nullable_template :=
| optional (l : library)       (* boost::optional, std::optional *)
| scoped_ptr                   (* boost::scoped_ptr *)
| unique_ptr (D : deleter)     (* std::unique_ptr<T> and std::unique_ptr<T, Deleter> *)
| shared_ptr (l : library)     (* boost::shared_ptr, std::shared_ptr *)
| weak_ptr (l : library).      (* boost::weak_ptr, std::weak_ptr *)

Inductive cpp_type :=
| t_bool | t_char | t_int16 | t_int32 | t_int64
| t_oid                        (* ozo::oid_t = ::Oid = unsigned int *)
| t_float | t_double
| t_uuid                       (* boost::uuids::uuid *)
| t_string                     (* std::string *)
| t_bytea | t_name             (* ozo::pg::bytea, ozo::pg::name *)
| t_class (qualified_name : string)
| t_range (qualified_name : string) (T : cpp_type)
| t_vector (T : cpp_type)      (* std::vector<T> *)
| t_nullable (W : nullable_template) (T : cpp_type).

#[global] Instance library_eq_dec : EqDecision library.
Proof. solve_decision. Defined.

#[global] Instance deleter_eq_dec : EqDecision deleter.
Proof. solve_decision. Defined.

#[global] Instance nullable_template_eq_dec : EqDecision nullable_template.
Proof. solve_decision. Defined.

#[global] Instance cpp_type_eq_dec : EqDecision cpp_type.
Proof. solve_decision. Defined.

(** ** OIDs *)

(** [oid_t] is libpq's [Oid], an unsigned integer; the header only stores
    and compares OIDs. *)
Definition oid_t := N.

(** [null_oid_t = oid_constant<0>]; [null_oid()] is its value. *)
Definition null_oid : oid_t := 0%N.

(** Modelled from the spec: [ozo/detail/pg_type.h] is not among the
    sources.  The spec says the identifiers of the built-in types are
    drawn from the database's fixed catalog and embedded as constants;
    these are the values of PostgreSQL's [pg_type] catalog. *)
Module pg_type.
Definition BOOLOID : oid_t := 16%N.
Definition BYTEAOID : oid_t := 17%N.
Definition CHAROID : oid_t := 18%N.
Definition NAMEOID : oid_t := 19%N.
Definition INT8OID : oid_t := 20%N.
Definition INT2OID : oid_t := 21%N.
Definition INT4OID : oid_t := 23%N.
Definition TEXTOID : oid_t := 25%N.
Definition OIDOID : oid_t := 26%N.
Definition FLOAT4OID : oid_t := 700%N.
Definition FLOAT8OID : oid_t := 701%N.
Definition UUIDOID : oid_t := 2950%N.
Definition INT2ARRAYOID : oid_t := 1005%N.
Definition INT4ARRAYOID : oid_t := 1007%N.
Definition TEXTARRAYOID : oid_t := 1009%N.
Definition FLOAT4ARRAYOID : oid_t := 1021%N.
Definition OIDARRAYOID : oid_t := 1028%N.
End pg_type.

(** ** Type traits *)

(** The [Size] argument of [type_traits_helper]: [bytes<n>] or
    [dynamic_size]. *)
Inductive size_trait :=
| bytes (n : Z)
| dynamic_size.

#[global] Instance size_trait_eq_dec : EqDecision size_trait.
Proof. solve_decision. Defined.

(** [type_traits_helper<T, Name, Oid, Size>]: the three members a
    specialization of [type_traits] gets from it.  Its [static_assert]
    compares the declared size with [sizeof(T)], a fact of the object
    layout and not of this table: the specializations considered are
    those that pass it. *)
Record type_traits_helper := {
  name : string;
  oid : oid_t;
  size : size_trait;
}.

#[global] Instance type_traits_helper_eq_dec : EqDecision type_traits_helper.
Proof. solve_decision. Defined.

(** The macros that specialize [type_traits].  A macro call is kept as
    data; [expand] is the preprocessor. *)
Inductive definition :=
| OZO_PG_DEFINE_TYPE (Type_ : cpp_type) (Name : string) (Oid : oid_t) (Size : size_trait)
| OZO_PG_DEFINE_TYPE_ARRAY (Type_ : cpp_type) (Name : string) (Oid : oid_t)
| OZO_PG_DEFINE_TYPE_AND_ARRAY (Type_ : cpp_type) (Name : string)
    (Oid ArrayOid : oid_t) (Size : size_trait)
| OZO_PG_DEFINE_CUSTOM_TYPE (Type_ : cpp_type) (Name : string) (Size : size_trait).

(** [OZO__TYPE_NAME_TYPE(Name)] *)
Definition OZO__TYPE_NAME_TYPE (Name : string) : string := Name.

(** [OZO__TYPE_ARRAY_NAME_TYPE(Name)] is [decltype(Name##_s + "[]"_s)] *)
Definition OZO__TYPE_ARRAY_NAME_TYPE (Name : string) : string := Name ++ "[]".

(** An explicit specialization [template <> struct type_traits<T> : type_traits_helper<...>]. *)
Definition specialization := (cpp_type * type_traits_helper)%type.

Definition define_type (T : cpp_type) (Name : string) (Oid : oid_t) (Size : size_trait)
  : list specialization :=
  [(T, {| name := OZO__TYPE_NAME_TYPE Name; oid := Oid; size := Size |})].

Definition define_type_array (T : cpp_type) (Name : string) (Oid : oid_t)
  : list specialization :=
  [(t_vector T,
    {| name := OZO__TYPE_ARRAY_NAME_TYPE Name; oid := Oid; size := dynamic_size |})].

Section Preprocessor.
(** Whether [__OZO_STD_OPTIONAL] is defined (it is set by
    [ozo/optional.h], outside this header). *)
Variable OZO_STD_OPTIONAL : bool.

(** [OZO_PG_DEFINE_TYPE_ARRAY_OZO_OPTIONAL] *)
Definition define_type_array_ozo_optional (T : cpp_type) (Name : string) (Oid : oid_t)
  : list specialization :=
  if OZO_STD_OPTIONAL
  then define_type_array (t_nullable (optional std) T) Name Oid
  else [].

(** [OZO_PG_DEFINE_TYPE_ARRAY_NULLABLES] *)
Definition define_type_array_nullables (T : cpp_type) (Name : string) (Oid : oid_t)
  : list specialization :=
  define_type_array (t_nullable (optional boost) T) Name Oid
  ++ define_type_array_ozo_optional T Name Oid
  ++ define_type_array (t_nullable scoped_ptr T) Name Oid
  ++ define_type_array (t_nullable (unique_ptr default_delete) T) Name Oid
  ++ define_type_array (t_nullable (shared_ptr boost) T) Name Oid
  ++ define_type_array (t_nullable (shared_ptr std) T) Name Oid.

Definition expand (d : definition) : list specialization :=
  match d with
  | OZO_PG_DEFINE_TYPE T Name Oid Size => define_type T Name Oid Size
  | OZO_PG_DEFINE_TYPE_ARRAY T Name Oid => define_type_array T Name Oid
  | OZO_PG_DEFINE_TYPE_AND_ARRAY T Name Oid ArrayOid Size =>
      define_type T Name Oid Size
      ++ define_type_array T Name ArrayOid
      ++ define_type_array_nullables T Name ArrayOid
  | OZO_PG_DEFINE_CUSTOM_TYPE T Name Size => define_type T Name null_oid Size
  end.

(** All the explicit specializations of a translation unit, in order. *)
Definition specializations (tu : list definition) : list specialization :=
  concat (map expand tu).
End Preprocessor.

(** The mappings the header itself defines (lines 601-618). *)
Definition builtin_definitions : list definition :=
  let D := OZO_PG_DEFINE_TYPE_AND_ARRAY in
  [ D t_bool "bool" pg_type.BOOLOID 1000%N (bytes 1);
    D t_char "char" pg_type.CHAROID 1002%N (bytes 1);
    D t_bytea "bytea" pg_type.BYTEAOID 1001%N dynamic_size;
    D t_uuid "uuid" pg_type.UUIDOID 2951%N (bytes 16);
    D t_int64 "int8" pg_type.INT8OID 1016%N (bytes 8);
    D t_int32 "int4" pg_type.INT4OID pg_type.INT4ARRAYOID (bytes 4);
    D t_int16 "int2" pg_type.INT2OID pg_type.INT2ARRAYOID (bytes 2);
    D t_oid "oid" pg_type.OIDOID pg_type.OIDARRAYOID (bytes 4);
    D t_double "float8" pg_type.FLOAT8OID 1022%N (bytes 8);
    D t_float "float4" pg_type.FLOAT4OID pg_type.FLOAT4ARRAYOID (bytes 4);
    D t_string "text" pg_type.TEXTOID pg_type.TEXTARRAYOID dynamic_size;
    D t_name "name" pg_type.NAMEOID 1003%N dynamic_size ].

(** ** Looking up [type_traits<T>] *)

Definition is_nullable (T : cpp_type) : bool :=
  match T with
  | t_nullable _ _ => true
  | _ => false
  end.

(** [Nullable<T> = is_nullable<std::decay_t<T>>::value] *)
Definition Nullable (T : cpp_type) : bool := is_nullable T.

(** Modelled from the spec: the alias [unwrap_nullable_type] is used by
    [type_traits_default] but declared outside the sources.  By the spec
    a nullable wrapper [W] has an inner type [T], and the descriptor of
    [W] is the descriptor of [T]: the alias names the inner type. *)
Definition unwrap_nullable_type (T : cpp_type) : cpp_type :=
  match T with
  | t_nullable _ U => U
  | _ => T
  end.

Section TypeTraits.
(** The explicit specializations of [type_traits] in scope. *)
Variable specs : list specialization.

Fixpoint find_specialization (l : list specialization) (T : cpp_type)
  : option type_traits_helper :=
  match l with
  | [] => None
  | (U, d) :: l' => if decide (U = T) then Some d else find_specialization l' T
  end.

(** [type_traits<T>]: an explicit specialization when there is one,
    otherwise the primary template, which inherits
    [type_traits_default<T>]: that is [type_traits<unwrap_nullable_type<T>>]
    when [Nullable<T>], and an empty struct otherwise ([None]). *)
Fixpoint type_traits (T : cpp_type) : option type_traits_helper :=
  match find_specialization specs T with
  | Some d => Some d
  | None =>
      match T with
      | t_nullable _ U => type_traits U
      | _ => None
      end
  end.

(** [has_type_traits<T>]: the three members exist. *)
Definition has_type_traits (T : cpp_type) : bool :=
  match type_traits T with Some _ => true | None => false end.

Definition HasTypeTraits (T : cpp_type) : bool := has_type_traits T.

(** [is_built_in<T>]: the partial specialization is chosen when
    [type_traits<T>::oid] exists and is not [null_oid_t]. *)
Definition is_built_in (T : cpp_type) : bool :=
  match type_traits T with
  | Some d => negb (N.eqb (oid d) null_oid)
  | None => false
  end.

Definition BuiltIn (T : cpp_type) : bool := is_built_in T.

(** [is_dynamic_size<T>] names [type_traits<T>::size] in its base
    clause: without traits the instantiation is an error. *)
Definition is_dynamic_size (T : cpp_type) : result bool :=
  match type_traits T with
  | Some d => Ok (bool_decide (size d = dynamic_size))
  | None => Ill_formed "no member named size in type_traits"
  end.

Definition DynamicSize (T : cpp_type) : result bool := is_dynamic_size T.

Definition StaticSize (T : cpp_type) : result bool :=
  bind (DynamicSize T) (fun b => Ok (negb b)).

Definition type_name (T : cpp_type) : result string :=
  match type_traits T with
  | Some d => Ok (name d)
  | None => Ill_formed "no type_traits found for the type"
  end.
End TypeTraits.

(** A translation unit is well formed when no type is specialized twice
    (a second explicit specialization is a redefinition). *)
Definition one_definition (specs : list specialization) : Prop :=
  NoDup (map fst specs).

(** ** [size_of] *)

#[local] Set Warnings "-register-all".

(** Run-time values, as far as [size_of] looks at them: a range (a
    container with [std::size] and [std::begin]) or any other object. *)
Inductive value :=
| object (contents : list Z)
| range (elements : list value).

(** [std::size_t] is 64 bits wide. *)
Definition size_t_modulus : Z := 2 ^ 64.

Definition size_t_mul (a b : Z) : Z := (a * b) mod size_t_modulus.

(** [std::size(v)] *)
Definition std_size (l : list value) : Z := Z.of_nat (length l).

(** The element type of the ranges among the types above.
    [OZO_STRONG_TYPEDEF] is outside the sources: whether [std::size]
    applies to [ozo::pg::bytea] and [ozo::pg::name] is not known from
    this header, they are not taken for ranges, and no property below
    is about [size_of] of the two. *)
Definition value_type (T : cpp_type) : option cpp_type :=
  match T with
  | t_string => Some t_char
  | t_vector U | t_range _ U => Some U
  | _ => None
  end.

Section SizeOf.
Variable specs : list specialization.

(** Overload resolution for [size_of(v)] with [v] of type [T], and the
    instantiation of the chosen body.  The first overload is viable
    when the size is not dynamic.  The second is viable when the size
    is dynamic and [std::size] applies to [T]; its body calls
    [size_of] on an element, whatever the number of elements.
    [element] says whether that call compiles. *)
Definition size_of_instantiates_with (element : option bool) (T : cpp_type) : bool :=
  match type_traits specs T with
  | None => false
  | Some d =>
      match size d with
      | bytes _ => true
      | dynamic_size =>
          match element with
          | Some b => b
          | None => false
          end
      end
  end.

Fixpoint size_of_instantiates (T : cpp_type) : bool :=
  match T with
  | t_vector U | t_range _ U =>
      size_of_instantiates_with (Some (size_of_instantiates U)) T
  | t_string =>
      size_of_instantiates_with (Some (size_of_instantiates_with None t_char)) T
  | _ => size_of_instantiates_with None T
  end.

(** What the chosen overload returns: the first one [size{}], the
    second one
    [std::size(v) ? std::size(v) * size_of( *std::begin(v)) : 0]. *)
Definition size_of_value_with (element : value -> Z) (T : cpp_type) (v : value) : Z :=
  match type_traits specs T with
  | Some {| size := bytes n |} => n
  | _ =>
      match v with
      | range l =>
          if Z.eqb (std_size l) 0 then 0
          else match l with
               | x :: _ => size_t_mul (std_size l) (element x)
               | [] => 0
               end
      | object _ => 0
      end
  end.

Fixpoint size_of_value (T : cpp_type) (v : value) : Z :=
  match T with
  | t_vector U | t_range _ U => size_of_value_with (size_of_value U) T v
  | t_string => size_of_value_with (size_of_value_with (fun _ => 0) t_char) T v
  | _ => size_of_value_with (fun _ => 0) T v
  end.

Definition size_of (T : cpp_type) (v : value) : result Z :=
  if size_of_instantiates T
  then Ok (size_of_value T v)
  else Ill_formed "no matching function for call to size_of".
End SizeOf.

(** ** The OID map *)

(** [boost::hana::map] with keys [hana::type_c<T>] and values of type
    [oid_t], as Boost.Hana documents it.  The keys of a map are part of
    its type.  [map[key]] requires the key to be present, which the
    library always asserts.  [make_map] requires the keys to be unique:
    a precondition, which the library asserts in its debug mode only.
    A call that breaks it has no specified result and gets no map
    here; the properties below are about lists of distinct types, and
    none of them says that a repeated type is rejected. *)
Module hana.
Definition map := list (cpp_type * oid_t).

Definition keys (m : map) : list cpp_type := List.map fst m.

Definition make_map (pairs : list (cpp_type * oid_t)) : result map :=
  if decide (NoDup (List.map fst pairs))
  then Ok pairs
  else Ill_formed "hana::make_map({keys, values}...) requires all the keys to be unique".

(** reading [m[hana::type_c<T>]] *)
Fixpoint at_key (m : map) (T : cpp_type) : result oid_t :=
  match m with
  | [] => Ill_formed "hana::at_key(map, key) requires the 'key' to be present in the 'map'"
  | (U, v) :: m' => if decide (U = T) then Ok v else at_key m' T
  end.

(** [m[hana::type_c<T>] = v] *)
Fixpoint assign (m : map) (T : cpp_type) (v : oid_t) : result map :=
  match m with
  | [] => Ill_formed "hana::at_key(map, key) requires the 'key' to be present in the 'map'"
  | (U, w) :: m' =>
      if decide (U = T) then Ok ((U, v) :: m')
      else bind (assign m' T v) (fun m'' => Ok ((U, w) :: m''))
  end.

Definition length (m : map) : nat := List.length m.
End hana.

Record oid_map_t := { impl : hana.map }.

Module detail.
Definition register_types (Ts : list cpp_type) : result hana.map :=
  hana.make_map (map (fun T => (T, null_oid)) Ts).
End detail.

(** [register_types<T...>()] *)
Definition register_types (Ts : list cpp_type) : result oid_map_t :=
  bind (detail.register_types Ts) (fun m => Ok {| impl := m |}).

(** [empty_oid_map], the type of [register_types<>()], has one value. *)
Definition empty_oid_map : oid_map_t := {| impl := [] |}.

Section OidMap.
Variable specs : list specialization.

Definition set_type_oid (T : cpp_type) (map : oid_map_t) (oid : oid_t)
  : result oid_map_t :=
  if is_built_in specs T
  then Ill_formed "type must not be built-in"
  else bind (hana.assign (impl map) T oid) (fun m => Ok {| impl := m |}).

(** The two overloads of [type_oid<T>(map)] exclude each other:
    [Require<!BuiltIn<T>, oid_t>] reads the map,
    [Require<BuiltIn<T>, oid_t>] returns [type_traits<T>::oid()]. *)
Definition type_oid (T : cpp_type) (map : oid_map_t) : result oid_t :=
  if BuiltIn specs T
  then match type_traits specs T with
       | Some d => Ok (oid d)
       | None => Ill_formed "no member named oid in type_traits"
       end
  else hana.at_key (impl map) T.

Definition accepts_oid (T : cpp_type) (map : oid_map_t) (oid : oid_t) : result bool :=
  bind (type_oid T map) (fun o => Ok (N.eqb o oid)).

Definition empty (map : oid_map_t) : bool :=
  Nat.eqb (hana.length (impl map)) 0.

(** A sequence of [set_type_oid] calls on one map. *)
Fixpoint set_type_oids (calls : list (cpp_type * oid_t)) (map : oid_map_t)
  : result oid_map_t :=
  match calls with
  | [] => Ok map
  | (T, oid) :: calls' => bind (set_type_oid T map oid) (set_type_oids calls')
  end.
End OidMap.

(** ** Nullables *)

(** Modelled from the spec: the concept [Emplaceable] is declared in
    [ozo/concept.h], outside the sources.  By the spec the
    value-semantic optional wrappers construct their inner value in
    place, and the default [allocate_nullable_impl] asserts the concept
    because it "uses emplace() method": the concept holds of the
    templates that have an [emplace()] member. *)
Definition Emplaceable (W : nullable_template) : bool :=
  match W with
  | optional _ => true
  | _ => false
  end.

Definition loc := positive.

Section Nullables.
(** The inner type [T] and its value-initialized object [T()]. *)
Context {A : Type}.
Variable value_init : A.

(** The control block shared by the [shared_ptr]s and [weak_ptr]s of
    one object: the number of owners and the object, which is
    destroyed when the last owner goes. *)
Record control_block := {
  use_count : nat;
  managed : A;
}.

Local Abbreviation heap := (gmap loc control_block).

(** What a [shared_ptr] or a [weak_ptr] points to.  Its stored
    pointer, the one [get()] returns and [operator bool] tests, is
    null, or points to the object of its control block, or, for a
    pointer made by the aliasing constructor, to another object. *)
Inductive stored_pointer :=
| null_pointer
| to_managed
| to_other (a : A).

(** A [shared_ptr] or [weak_ptr]: the control block it shares, if any,
    and its stored pointer.  The two are independent: a pointer made
    from a null raw pointer, or by the aliasing constructor, owns a
    block and stores null. *)
Record handle := {
  block : option loc;
  stored : stored_pointer;
}.

(** The value-initialized pointer, [T{}]. *)
Definition empty_handle : handle := {| block := None; stored := null_pointer |}.

(** The pointer [allocate_shared] returns for a new block. *)
Definition owner (c : loc) : handle := {| block := Some c; stored := to_managed |}.

(** A value of a nullable type.  The optionals and the exclusive
    pointers hold their object. *)
Inductive nullable :=
| n_optional (l : library) (o : option A)
| n_scoped_ptr (p : option A)
| n_unique_ptr (D : deleter) (p : option A)
| n_shared_ptr (l : library) (p : handle)
| n_weak_ptr (l : library) (p : handle).

Definition template_of (n : nullable) : nullable_template :=
  match n with
  | n_optional l _ => optional l
  | n_scoped_ptr _ => scoped_ptr
  | n_unique_ptr D _ => unique_ptr D
  | n_shared_ptr l _ => shared_ptr l
  | n_weak_ptr l _ => weak_ptr l
  end.

Definition acquire (b : control_block) : control_block :=
  {| use_count := S (use_count b); managed := managed b |}.

Definition release (b : control_block) : control_block :=
  {| use_count := pred (use_count b); managed := managed b |}.

(** The destructor of a [shared_ptr]. *)
Definition shared_ptr_destroy (h : heap) (p : handle) : heap :=
  match block p with
  | Some c => alter release c h
  | None => h
  end.

(** [w.use_count()] and [w.expired()] of a [weak_ptr]. *)
Definition weak_use_count (h : heap) (w : handle) : nat :=
  match block w with
  | Some c => match h !! c with Some b => use_count b | None => O end
  | None => O
  end.

Definition expired (h : heap) (w : handle) : bool :=
  Nat.eqb (weak_use_count h w) 0.

(** [w.lock()]: an empty [shared_ptr] when [w] is expired; otherwise
    one more owner of the object, with the stored pointer of [w]. *)
Definition lock (h : heap) (w : handle) : heap * handle :=
  if expired h w then (h, empty_handle)
  else (match block w with Some c => alter acquire c h | None => h end, w).

(** [std::allocate_shared<T>(a)], [boost::allocate_shared<T>(a)] *)
Definition allocate_shared (h : heap) : heap * loc :=
  let c := fresh (dom h) in
  (<[c := {| use_count := 1; managed := value_init |}]> h, c).

(** [!v] of a [shared_ptr]: its stored pointer is null. *)
Definition handle_is_null (p : handle) : bool :=
  match stored p with
  | null_pointer => true
  | _ => false
  end.

(** [*v] of a [shared_ptr]: the object its stored pointer points to. *)
Definition dereference (h : heap) (p : handle) : option A :=
  match stored p with
  | null_pointer => None
  | to_managed =>
      match block p with Some c => managed <$> h !! c | None => None end
  | to_other a => Some a
  end.

(** [is_null(v)]: [!v], and for a [weak_ptr] (also
    [is_null_impl<std::weak_ptr<T>>] of [ext/std/weak_ptr.h])
    [is_null(v.lock())]; the temporary [shared_ptr] is destroyed at
    the end of the call. *)
Definition is_null (h : heap) (n : nullable) : heap * bool :=
  match n with
  | n_optional _ o | n_scoped_ptr o | n_unique_ptr _ o =>
      (h, match o with Some _ => false | None => true end)
  | n_shared_ptr _ p => (h, handle_is_null p)
  | n_weak_ptr _ w =>
      let '(h1, s) := lock h w in
      let r := handle_is_null s in
      (shared_ptr_destroy h1 s, r)
  end.

(** [unwrap_nullable(v)]: [*v], and [*v.lock()] for a [weak_ptr].
    Dereferencing a null wrapper is undefined: [None]. *)
Definition unwrap_nullable (h : heap) (n : nullable) : option A :=
  match n with
  | n_optional _ o | n_scoped_ptr o | n_unique_ptr _ o => o
  | n_shared_ptr _ p => dereference h p
  | n_weak_ptr _ w =>
      let '(h1, s) := lock h w in
      dereference h1 s
  end.

(** The default [allocate_nullable_impl<T>]: a [static_assert] of
    [Emplaceable<T>], then [out.emplace()]. *)
Definition allocate_nullable_default (h : heap) (out : nullable)
  : result (heap * nullable) :=
  if Emplaceable (template_of out)
  then match out with
       | n_optional l _ => Ok (h, n_optional l (Some value_init))
       | _ => Ill_formed "no member named emplace"
       end
  else Ill_formed "default implementation uses emplace() method".

(** [allocate_nullable(out, a)]: [allocate_nullable_impl] is
    specialized for [std::unique_ptr<T>], [boost::scoped_ptr<T>] and
    the two [shared_ptr]s; every other type gets the default
    implementation. *)
Definition allocate_nullable (h : heap) (out : nullable) : result (heap * nullable) :=
  match out with
  | n_unique_ptr default_delete _ =>
      Ok (h, n_unique_ptr default_delete (Some value_init))
  | n_scoped_ptr _ => Ok (h, n_scoped_ptr (Some value_init))
  | n_shared_ptr l p =>
      let '(h1, c) := allocate_shared h in
      Ok (shared_ptr_destroy h1 p, n_shared_ptr l (owner c))
  | _ => allocate_nullable_default h out
  end.

(** [init_nullable(n, a)]: the call of [allocate_nullable] is
    instantiated whether or not [n] is null. *)
Definition init_nullable (h : heap) (n : nullable) : result (heap * nullable) :=
  let '(h1, null) := is_null h n in
  match allocate_nullable h1 n with
  | Ill_formed d => Ill_formed d
  | Ok allocated => Ok (if null then allocated else (h1, n))
  end.

(** [reset_nullable(n)]: [n = T{}].  [boost::scoped_ptr] has no
    accessible assignment operator, and [std::unique_ptr<T, Deleter>]
    has a default constructor and a move assignment only for a
    deleter that has them. *)
Definition reset_nullable (h : heap) (n : nullable) : result (heap * nullable) :=
  match n with
  | n_optional l _ => Ok (h, n_optional l None)
  | n_scoped_ptr _ => Ill_formed "operator= is a private member of boost::scoped_ptr"
  | n_unique_ptr (custom_deleter false) _ =>
      Ill_formed "no matching constructor for initialization of std::unique_ptr"
  | n_unique_ptr D _ => Ok (h, n_unique_ptr D None)
  | n_shared_ptr l p => Ok (shared_ptr_destroy h p, n_shared_ptr l empty_handle)
  | n_weak_ptr l _ => Ok (h, n_weak_ptr l empty_handle)
  end.
End Nullables.

Arguments nullable A : clear implicits.
Arguments control_block A : clear implicits.
Arguments stored_pointer A : clear implicits.
Arguments handle A : clear implicits.
Arguments null_pointer {A}.
Arguments to_other {A} a.
Arguments to_managed {A}.
Arguments empty_handle {A}.
Arguments owner {A} c.

(** The control blocks in use, by address. *)
Abbreviation heap A := (gmap loc (control_block A)).

(** ** Vocabulary of the further properties *)

(** The wrappers [OZO_PG_DEFINE_TYPE_ARRAY_NULLABLES] lists;
    [std::optional] only when [__OZO_STD_OPTIONAL] is defined. *)
Definition array_nullable (OZO_STD_OPTIONAL : bool) (W : nullable_template) : bool :=
  match W with
  | optional boost => true
  | optional std => OZO_STD_OPTIONAL
  | scoped_ptr => true
  | unique_ptr default_delete => true
  | unique_ptr (custom_deleter _) => false
  | shared_ptr _ => true
  | weak_ptr _ => false
  end.

(** The types that are neither vectors nor nullable wrappers. *)
Definition plain_type (T : cpp_type) : bool :=
  match T with
  | t_vector _ | t_nullable _ _ => false
  | _ => true
  end.

(** The oid the last call for [T] in a sequence of calls stores, [v]
    when there is none. *)
Definition last_set (calls : list (cpp_type * oid_t)) (T : cpp_type) (v : oid_t) : oid_t :=
  fold_left (fun acc call => if decide (fst call = T) then snd call else acc) calls v.

(** A heap with one object, owned once. *)
Definition one_owner : heap Z := (allocate_shared 7 ∅).1.

(** The heap left when the only owner of an object is destroyed. *)
Definition dead_heap : heap Z :=
  let '(h, c) := allocate_shared 0 ∅ in shared_ptr_destroy h (owner c).

(** * Properties *)

(** The header on its own, with [std::optional] available. *)
Definition header : list specialization :=
  specializations true builtin_definitions.

(** A translation unit that also maps an application type the way the
    documentation of [OZO_PG_DEFINE_TYPE_AND_ARRAY] does. *)
Definition geo_point : cpp_type := t_class "geo::Point".

Definition header_with_point : list specialization :=
  specializations true
    (builtin_definitions
     ++ [OZO_PG_DEFINE_TYPE_AND_ARRAY geo_point "geo.point" null_oid null_oid dynamic_size]).

(** ** Type traits *)

Lemma type_traits_unfold specs T :
  type_traits specs T =
  match find_specialization specs T with
  | Some d => Some d
  | None => if Nullable T then type_traits specs (unwrap_nullable_type T) else None
  end.
Proof. destruct T; reflexivity. Qed.

Lemma find_specialization_app l1 l2 T :
  find_specialization (l1 ++ l2) T =
  match find_specialization l1 T with
  | Some d => Some d
  | None => find_specialization l2 T
  end.
Proof.
  induction l1 as [|[U d] l1 IH]; simpl; [reflexivity|].
  destruct (decide (U = T)); [reflexivity | exact IH].
Qed.

Lemma find_specialization_None l T :
  ~ In T (map fst l) -> find_specialization l T = None.
Proof.
  induction l as [|[U d] l IH]; simpl; intros Hn; [reflexivity|].
  destruct (decide (U = T)) as [->|_]; [tauto | apply IH; tauto].
Qed.

Lemma find_specialization_Some l T d :
  find_specialization l T = Some d -> In (T, d) l.
Proof.
  induction l as [|[U e] l IH]; simpl; [discriminate|].
  destruct (decide (U = T)) as [->|_].
  - intros [= ->]. now left.
  - intros H. right. now apply IH.
Qed.

(** With one definition per type, every specialization in scope is
    the one found. *)
Lemma find_specialization_In l T d :
  one_definition l -> In (T, d) l -> find_specialization l T = Some d.
Proof.
  unfold one_definition.
  induction l as [|[U e] l IH]; simpl; intros Hnd Hin; [tauto|].
  apply NoDup_cons in Hnd as [Hn Hnd].
  destruct Hin as [[= -> ->]|Hin].
  - destruct (decide (T = T)); [reflexivity | congruence].
  - destruct (decide (U = T)) as [->|_]; [|now apply IH].
    exfalso. apply Hn. apply list_elem_of_In.
    change T with (fst (T, d)). now apply in_map.
Qed.

Lemma in_specializations flag tu d s :
  In d tu -> In s (expand flag d) -> In s (specializations flag tu).
Proof.
  intros Hd Hs. unfold specializations. apply in_concat.
  exists (expand flag d). split; [now apply in_map | exact Hs].
Qed.

(** The types a macro call specializes are its [Type] argument and
    vectors. *)
Definition defined_type (d : definition) : cpp_type :=
  match d with
  | OZO_PG_DEFINE_TYPE T _ _ _
  | OZO_PG_DEFINE_TYPE_ARRAY T _ _
  | OZO_PG_DEFINE_TYPE_AND_ARRAY T _ _ _ _
  | OZO_PG_DEFINE_CUSTOM_TYPE T _ _ => T
  end.

Lemma expand_specializes flag d U :
  In U (map fst (expand flag d)) ->
  U = defined_type d \/ exists V, U = t_vector V.
Proof.
  destruct d as [T N o s|T N o|T N o ao s|T N s]; simpl;
    unfold define_type_array_ozo_optional; destruct flag; simpl;
    intuition (subst; eauto).
Qed.

Lemma nullable_not_specialized flag tu W T :
  Forall (fun d => is_nullable (defined_type d) = false) tu ->
  find_specialization (specializations flag tu) (t_nullable W T) = None.
Proof.
  intros Hall. apply find_specialization_None. intros Hin.
  unfold specializations in Hin. rewrite <- flat_map_concat_map in Hin.
  apply in_map_iff in Hin as [[U e] [HU Hin]]. simpl in HU. subst U.
  apply in_flat_map in Hin as [d [Hd Hin]].
  rewrite Forall_forall in Hall. specialize (Hall d).
  assert (Hfst : In (t_nullable W T) (map fst (expand flag d))).
  { change (t_nullable W T) with (fst (t_nullable W T, e)). now apply in_map. }
  apply expand_specializes in Hfst as [Heq|[V HV]]; [|discriminate].
  rewrite <- Heq in Hall. simpl in Hall.
  assert (true = false) by (apply Hall; apply list_elem_of_In; exact Hd).
  discriminate.
Qed.

(** C5: a nullable wrapper type without an explicit specialization of
    its own has the type traits (name, oid and size) of its inner type.
    In particular, when the macros are only applied to types that are
    not nullable wrappers, as the header does, every wrapper of every
    type has the traits of the type it wraps. *)
Theorem nullable_type_traits specs W T :
  (find_specialization specs (t_nullable W T) = None ->
   type_traits specs (t_nullable W T) = type_traits specs T)
  /\ (forall flag tu,
        specs = specializations flag tu ->
        Forall (fun d => is_nullable (defined_type d) = false) tu ->
        type_traits specs (t_nullable W T) = type_traits specs T).
Proof.
  split.
  - intros Hnone. rewrite type_traits_unfold, Hnone. reflexivity.
  - intros flag tu -> Hall.
    rewrite type_traits_unfold, (nullable_not_specialized _ _ _ _ Hall).
    reflexivity.
Qed.

Lemma nullable_type_traits_witness :
  type_traits header_with_point (t_nullable (optional std) geo_point)
  = type_traits header_with_point geo_point
  /\ type_traits header_with_point geo_point
     = Some {| name := "geo.point"; oid := null_oid; size := dynamic_size |}.
Proof.
  split; [|reflexivity].
  apply (proj1 (nullable_type_traits header_with_point (optional std) geo_point)).
  reflexivity.
Defined.

(** C9: [OZO_PG_DEFINE_TYPE_AND_ARRAY(Type, Name, Oid, ArrayOid, Size)]
    gives [std::vector<Type>] type traits whose name is [Name] followed
    by the array marker "[]", whose oid is [ArrayOid] and whose size is
    dynamic. *)
Theorem array_type_traits flag tu T N o ao s :
  one_definition (specializations flag tu) ->
  In (OZO_PG_DEFINE_TYPE_AND_ARRAY T N o ao s) tu ->
  type_traits (specializations flag tu) (t_vector T)
  = Some {| name := N ++ "[]"; oid := ao; size := dynamic_size |}.
Proof.
  intros Hone Hin. rewrite type_traits_unfold.
  rewrite (find_specialization_In _ (t_vector T)
             {| name := N ++ "[]"; oid := ao; size := dynamic_size |} Hone);
    [reflexivity|].
  apply (in_specializations flag tu _ _ Hin). simpl. right. left. reflexivity.
Qed.

Lemma array_type_traits_witness :
  type_traits header_with_point (t_vector geo_point)
  = Some {| name := "geo.point[]"; oid := null_oid; size := dynamic_size |}.
Proof.
  apply (array_type_traits true
           (builtin_definitions
            ++ [OZO_PG_DEFINE_TYPE_AND_ARRAY geo_point "geo.point"
                  null_oid null_oid dynamic_size])
           geo_point "geo.point" null_oid null_oid dynamic_size).
  - apply (bool_decide_unpack _). vm_compute. exact I.
  - apply in_or_app. right. left. reflexivity.
Defined.

(** ** Built-in types *)

Lemma is_built_in_traits specs T :
  is_built_in specs T = true ->
  exists d, type_traits specs T = Some d /\ N.eqb (oid d) null_oid = false.
Proof.
  unfold is_built_in. destruct (type_traits specs T) as [d|]; [|discriminate].
  intros H. exists d. split; [reflexivity|].
  now apply negb_true_iff.
Qed.

(** C1: for a type whose traits carry an oid other than [null_oid],
    [is_built_in] holds and [type_oid] returns that oid for every OID
    map: the map is not read, so two maps give the same answer. *)
Theorem type_oid_built_in specs T d :
  type_traits specs T = Some d ->
  N.eqb (oid d) null_oid = false ->
  is_built_in specs T = true
  /\ (forall map, type_oid specs T map = Ok (oid d))
  /\ (forall map map', type_oid specs T map = type_oid specs T map').
Proof.
  intros Ht Hoid.
  assert (Hb : is_built_in specs T = true).
  { unfold is_built_in. rewrite Ht, Hoid. reflexivity. }
  assert (Hq : forall map, type_oid specs T map = Ok (oid d)).
  { intros m. unfold type_oid, BuiltIn. rewrite Hb, Ht. reflexivity. }
  split; [exact Hb|]. split; [exact Hq|].
  intros m m'. now rewrite !Hq.
Qed.

Lemma type_oid_built_in_witness :
  is_built_in header t_int32 = true
  /\ (forall map, type_oid header t_int32 map = Ok pg_type.INT4OID)
  /\ (forall map map', type_oid header t_int32 map = type_oid header t_int32 map').
Proof.
  apply (type_oid_built_in header t_int32
           {| name := "int4"; oid := pg_type.INT4OID; size := bytes 4 |});
    reflexivity.
Defined.

(** ** [size_of] *)

Lemma size_of_instantiates_unfold specs T :
  size_of_instantiates specs T =
  size_of_instantiates_with specs (size_of_instantiates specs <$> value_type T) T.
Proof. destruct T; reflexivity. Qed.

Lemma size_of_value_unfold specs T v :
  size_of_value specs T v =
  size_of_value_with specs
    (match value_type T with
     | Some U => size_of_value specs U
     | None => fun _ => 0
     end) T v.
Proof. destruct T; reflexivity. Qed.

Lemma size_of_Ok specs T v e :
  size_of specs T v = Ok e ->
  size_of_instantiates specs T = true /\ e = size_of_value specs T v.
Proof.
  unfold size_of. destruct (size_of_instantiates specs T); [|discriminate].
  intros [= <-]. split; reflexivity.
Qed.

Lemma std_size_cons x l : Z.eqb (std_size (x :: l)) 0 = false.
Proof. apply Z.eqb_neq. unfold std_size. simpl length. lia. Qed.

(** Within the range of [std::size_t] the product does not wrap. *)
Lemma size_t_mul_exact a b :
  0 <= a * b < size_t_modulus -> size_t_mul a b = a * b.
Proof. intros H. unfold size_t_mul. now apply Z.mod_small. Qed.

(** C3: [size_of] of a value of a type with size [bytes<n>] is [n],
    whatever the value.  [size_of] of a range [v] of a dynamic size type
    is 0 when [v] has no elements, and otherwise the number of elements
    times [size_of] of the first element, a product of two
    [std::size_t]; no other element is looked at. *)
Theorem size_of_spec specs T d :
  type_traits specs T = Some d ->
  (forall n v, size d = bytes n -> size_of specs T v = Ok n)
  /\ (forall U, size d = dynamic_size -> value_type T = Some U ->
      (size_of_instantiates specs U = true -> size_of specs T (range []) = Ok 0)
      /\ (forall x l e, size_of specs U x = Ok e ->
          size_of specs T (range (x :: l)) = Ok (size_t_mul (std_size (x :: l)) e))
      /\ (forall x l l' e, size_of specs U x = Ok e -> length l = length l' ->
          size_of specs T (range (x :: l)) = size_of specs T (range (x :: l')))).
Proof.
  intros Ht.
  assert (Hfirst : forall U x l e, size d = dynamic_size -> value_type T = Some U ->
            size_of specs U x = Ok e ->
            size_of specs T (range (x :: l)) = Ok (size_t_mul (std_size (x :: l)) e)).
  { intros U x l e Hs HU He. apply size_of_Ok in He as [Hi ->].
    unfold size_of. rewrite size_of_instantiates_unfold, HU. simpl.
    unfold size_of_instantiates_with. rewrite Ht, Hs, Hi.
    rewrite size_of_value_unfold, HU. unfold size_of_value_with.
    rewrite Ht. destruct d as [nm o sz]. simpl in Hs. subst sz.
    rewrite std_size_cons. reflexivity. }
  split.
  - intros n v Hs. unfold size_of.
    rewrite size_of_instantiates_unfold. unfold size_of_instantiates_with.
    rewrite Ht, Hs. rewrite size_of_value_unfold. unfold size_of_value_with.
    rewrite Ht. destruct d as [nm o sz]. simpl in Hs. subst sz. reflexivity.
  - intros U Hs HU. split; [|split].
    + intros Hi. unfold size_of.
      rewrite size_of_instantiates_unfold, HU. simpl.
      unfold size_of_instantiates_with. rewrite Ht, Hs, Hi.
      rewrite size_of_value_unfold, HU. unfold size_of_value_with.
      rewrite Ht. destruct d as [nm o sz]. simpl in Hs. subst sz. reflexivity.
    + intros x l e He. now apply (Hfirst U).
    + intros x l l' e He Hlen.
      rewrite (Hfirst U x l e Hs HU He), (Hfirst U x l' e Hs HU He).
      unfold std_size. simpl length. now rewrite Hlen.
Qed.

Lemma size_of_spec_witness :
  (forall v, size_of header t_int32 v = Ok 4)
  /\ size_of header (t_vector t_int32) (range []) = Ok 0
  /\ size_of header (t_vector t_int32) (range [object [7]; object [8]; object [9]]) = Ok 12.
Proof.
  split; [|split].
  - intros v.
    apply (proj1 (size_of_spec header t_int32
                    {| name := "int4"; oid := pg_type.INT4OID; size := bytes 4 |}
                    eq_refl) 4 v).
    reflexivity.
  - apply (proj2 (size_of_spec header (t_vector t_int32)
                    {| name := "int4[]"; oid := pg_type.INT4ARRAYOID; size := dynamic_size |}
                    eq_refl) t_int32 eq_refl eq_refl).
    reflexivity.
  - apply (proj1 (proj2 (proj2 (size_of_spec header (t_vector t_int32)
                    {| name := "int4[]"; oid := pg_type.INT4ARRAYOID; size := dynamic_size |}
                    eq_refl) t_int32 eq_refl eq_refl))
                  (object [7]) [object [8]; object [9]] 4).
    reflexivity.
Defined.

(** The length of a vector of strings is taken from its first string:
    two strings of lengths 2 and 1 give 4, not 3. *)
Example size_of_first_element_only :
  let ab := range [object [97]; object [98]] in
  let c := range [object [99]] in
  size_of header t_string ab = Ok 2
  /\ size_of header t_string c = Ok 1
  /\ size_of header (t_vector t_string) (range [ab; c]) = Ok 4
  /\ size_of header (t_vector t_string) (range [c; ab]) = Ok 2.
Proof. repeat split. Qed.

(** ** The OID map *)

Module hana_facts.
Import hana.

Lemma keys_null Ts : keys (List.map (fun T => (T, null_oid)) Ts) = Ts.
Proof.
  unfold keys. rewrite List.map_map. simpl. apply List.map_id.
Qed.

Lemma at_key_null Ts T :
  In T Ts -> at_key (List.map (fun T => (T, null_oid)) Ts) T = Ok null_oid.
Proof.
  induction Ts as [|U Ts IH]; simpl; [tauto|].
  intros [->|Hin].
  - destruct (decide (T = T)); [reflexivity | congruence].
  - destruct (decide (U = T)); [reflexivity | now apply IH].
Qed.

Lemma at_key_absent m T : ~ In T (keys m) -> is_Ok (at_key m T) = false.
Proof.
  induction m as [|[U w] m IH]; simpl; intros Hn; [reflexivity|].
  destruct (decide (U = T)) as [->|_]; [tauto | apply IH; tauto].
Qed.

Lemma assign_present m T v :
  In T (keys m) -> exists m', assign m T v = Ok m'.
Proof.
  induction m as [|[U w] m IH]; simpl; [tauto|].
  intros Hin. destruct (decide (U = T)) as [->|Hne]; [eauto|].
  destruct IH as [m' Hm']; [tauto|]. rewrite Hm'. simpl. eauto.
Qed.

Lemma assign_absent m T v :
  ~ In T (keys m) -> is_Ok (assign m T v) = false.
Proof.
  induction m as [|[U w] m IH]; simpl; intros Hn; [reflexivity|].
  destruct (decide (U = T)) as [->|_]; [tauto|].
  specialize (IH ltac:(tauto)).
  destruct (assign m T v); [discriminate | reflexivity].
Qed.

Lemma assign_keys m T v m' : assign m T v = Ok m' -> keys m' = keys m.
Proof.
  revert m'. induction m as [|[U w] m IH]; simpl; intros m'; [discriminate|].
  destruct (decide (U = T)) as [->|_].
  - intros [= <-]. reflexivity.
  - destruct (assign m T v) as [m''|]; simpl; [|discriminate].
    intros [= <-]. simpl. f_equal. now apply IH.
Qed.

Lemma at_key_assign_eq m T v m' : assign m T v = Ok m' -> at_key m' T = Ok v.
Proof.
  revert m'. induction m as [|[U w] m IH]; simpl; intros m'; [discriminate|].
  destruct (decide (U = T)) as [->|Hne].
  - intros [= <-]. simpl. destruct (decide (T = T)); [reflexivity | congruence].
  - destruct (assign m T v) as [m''|]; simpl; [|discriminate].
    intros [= <-]. simpl. destruct (decide (U = T)); [congruence|].
    now apply IH.
Qed.

Lemma at_key_assign_ne m T v m' U :
  assign m T v = Ok m' -> U <> T -> at_key m' U = at_key m U.
Proof.
  revert m'. induction m as [|[V w] m IH]; simpl; intros m'; [discriminate|].
  destruct (decide (V = T)) as [->|Hne].
  - intros [= <-] HU. simpl. destruct (decide (T = U)); [congruence | reflexivity].
  - destruct (assign m T v) as [m''|]; simpl; [|discriminate].
    intros [= <-] HU. simpl. destruct (decide (V = U)); [reflexivity|].
    now apply IH.
Qed.
End hana_facts.

Lemma register_types_NoDup Ts :
  NoDup Ts ->
  register_types Ts = Ok {| impl := map (fun T => (T, null_oid)) Ts |}.
Proof.
  intros Hnd. unfold register_types, detail.register_types, hana.make_map.
  change (List.map fst ?l) with (hana.keys l).
  rewrite hana_facts.keys_null. destruct (decide (NoDup Ts)); [reflexivity | tauto].
Qed.

Lemma register_types_Ok Ts reg :
  register_types Ts = Ok reg ->
  NoDup Ts /\ reg = {| impl := map (fun T => (T, null_oid)) Ts |}.
Proof.
  unfold register_types, detail.register_types, hana.make_map.
  change (List.map fst ?l) with (hana.keys l).
  rewrite hana_facts.keys_null.
  destruct (decide (NoDup Ts)); simpl; [|discriminate].
  intros [= <-]. split; [assumption | reflexivity].
Qed.

Lemma set_type_oid_Ok specs T reg id reg' :
  set_type_oid specs T reg id = Ok reg' ->
  is_built_in specs T = false /\ hana.assign (impl reg) T id = Ok (impl reg').
Proof.
  unfold set_type_oid. destruct (is_built_in specs T); [discriminate|].
  destruct (hana.assign (impl reg) T id) as [m|]; simpl; [|discriminate].
  intros [= <-]. split; reflexivity.
Qed.

Lemma set_type_oid_registered specs T reg id :
  is_built_in specs T = false -> In T (hana.keys (impl reg)) ->
  exists reg', set_type_oid specs T reg id = Ok reg'.
Proof.
  intros Hb Hin. unfold set_type_oid. rewrite Hb.
  destruct (hana_facts.assign_present (impl reg) T id Hin) as [m Hm].
  rewrite Hm. simpl. eauto.
Qed.

Lemma set_type_oid_keys specs T reg id reg' :
  set_type_oid specs T reg id = Ok reg' ->
  hana.keys (impl reg') = hana.keys (impl reg).
Proof.
  intros H. apply set_type_oid_Ok in H as [_ H].
  now apply hana_facts.assign_keys in H.
Qed.

Lemma set_type_oids_keys specs calls reg reg' :
  set_type_oids specs calls reg = Ok reg' ->
  hana.keys (impl reg') = hana.keys (impl reg).
Proof.
  revert reg. induction calls as [|[T id] calls IH]; simpl; intros reg.
  - intros [= <-]. reflexivity.
  - destruct (set_type_oid specs T reg id) as [reg1|] eqn:H1; simpl; [|discriminate].
    intros H. rewrite (IH _ H). now apply set_type_oid_keys in H1.
Qed.

Lemma type_oid_custom specs T reg :
  is_built_in specs T = false -> type_oid specs T reg = hana.at_key (impl reg) T.
Proof. intros Hb. unfold type_oid, BuiltIn. now rewrite Hb. Qed.

Lemma empty_keys reg reg' :
  hana.keys (impl reg') = hana.keys (impl reg) -> empty reg' = empty reg.
Proof.
  intros H. unfold empty, hana.length.
  rewrite <- (length_map fst (impl reg')), <- (length_map fst (impl reg)).
  unfold hana.keys in H. now rewrite H.
Qed.

(** [empty] holds of [register_types<>()] and of no map with a listed
    type. *)
Example empty_register_types :
  register_types [] = Ok empty_oid_map
  /\ empty empty_oid_map = true
  /\ (forall T Ts reg, register_types (T :: Ts) = Ok reg -> empty reg = false).
Proof.
  repeat split. intros T Ts reg H.
  apply register_types_Ok in H as [_ ->]. reflexivity.
Qed.

Definition app_other : cpp_type := t_class "app::Other".

(** C2: for a type [T] that is not built-in and is listed in
    [register_types<Ts...>()], [type_oid<T>] of the fresh map is
    [null_oid]; and on every map that has an entry for [T], after
    [set_type_oid<T>(map, id)] [type_oid<T>] is [id], [accepts_oid<T>]
    holds of [id] and fails of every other oid. *)
Theorem custom_type_oid specs Ts T id :
  is_built_in specs T = false ->
  NoDup Ts ->
  In T Ts ->
  exists reg,
    register_types Ts = Ok reg
    /\ hana.keys (impl reg) = Ts
    /\ type_oid specs T reg = Ok null_oid
    /\ forall reg1, In T (hana.keys (impl reg1)) ->
       exists reg2,
         set_type_oid specs T reg1 id = Ok reg2
         /\ type_oid specs T reg2 = Ok id
         /\ accepts_oid specs T reg2 id = Ok true
         /\ forall other, other <> id -> accepts_oid specs T reg2 other = Ok false.
Proof.
  intros Hb Hnd Hin. eexists. split; [now apply register_types_NoDup|].
  split; [apply hana_facts.keys_null|].
  split.
  - rewrite (type_oid_custom _ _ _ Hb). now apply hana_facts.at_key_null.
  - intros reg1 Hin1.
    destruct (set_type_oid_registered specs T reg1 id Hb Hin1) as [reg2 Hset].
    exists reg2. split; [exact Hset|].
    assert (Hq : type_oid specs T reg2 = Ok id).
    { rewrite (type_oid_custom _ _ _ Hb).
      apply set_type_oid_Ok in Hset as [_ Hset].
      now apply hana_facts.at_key_assign_eq in Hset. }
    split; [exact Hq|]. unfold accepts_oid. rewrite Hq. simpl. split.
    + now rewrite N.eqb_refl.
    + intros other Hne. f_equal. apply N.eqb_neq. congruence.
Qed.

Lemma custom_type_oid_witness :
  exists reg,
    register_types [geo_point; app_other] = Ok reg
    /\ hana.keys (impl reg) = [geo_point; app_other]
    /\ type_oid header_with_point geo_point reg = Ok null_oid
    /\ forall reg1, In geo_point (hana.keys (impl reg1)) ->
       exists reg2,
         set_type_oid header_with_point geo_point reg1 4242%N = Ok reg2
         /\ type_oid header_with_point geo_point reg2 = Ok 4242%N
         /\ accepts_oid header_with_point geo_point reg2 4242%N = Ok true
         /\ forall other, other <> 4242%N ->
            accepts_oid header_with_point geo_point reg2 other = Ok false.
Proof.
  apply (custom_type_oid header_with_point [geo_point; app_other] geo_point 4242%N).
  - reflexivity.
  - apply (bool_decide_unpack _). vm_compute. exact I.
  - simpl. left. reflexivity.
Defined.




(** C7, as the header has it: [set_type_oid<T>(map, oid)] is rejected by
    its [static_assert] when [T] is built-in, so a call that compiles is
    a call on a type that is not built-in.  For a type that is not
    built-in it stores [oid] in the entry of [T] when the map has one;
    when the map has no entry for [T] the call is rejected as well, by
    [hana::map]'s [operator[]]. *)
Theorem set_type_oid_spec specs T map id :
  (is_built_in specs T = true ->
   set_type_oid specs T map id = Ill_formed "type must not be built-in")
  /\ (is_built_in specs T = false -> In T (hana.keys (impl map)) ->
      exists map', set_type_oid specs T map id = Ok map'
                   /\ hana.at_key (impl map') T = Ok id)
  /\ (is_built_in specs T = false -> ~ In T (hana.keys (impl map)) ->
      is_Ok (set_type_oid specs T map id) = false)
  /\ (forall map', set_type_oid specs T map id = Ok map' ->
      is_built_in specs T = false).
Proof.
  split; [|split; [|split]].
  - intros Hb. unfold set_type_oid. now rewrite Hb.
  - intros Hb Hin.
    destruct (set_type_oid_registered specs T map id Hb Hin) as [map' Hset].
    exists map'. split; [exact Hset|].
    apply set_type_oid_Ok in Hset as [_ Hset].
    now apply hana_facts.at_key_assign_eq in Hset.
  - intros Hb Hn. unfold set_type_oid. rewrite Hb.
    pose proof (hana_facts.assign_absent (impl map) T id Hn) as Ha.
    destruct (hana.assign (impl map) T id); [discriminate | reflexivity].
  - intros map' Hset. now apply set_type_oid_Ok in Hset as [Hb _].
Qed.

Lemma set_type_oid_spec_witness :
  set_type_oid header_with_point t_int32
    {| impl := [(geo_point, null_oid)] |} 4242%N
  = Ill_formed "type must not be built-in"
  /\ exists map',
      set_type_oid header_with_point geo_point
        {| impl := [(geo_point, null_oid)] |} 4242%N = Ok map'
      /\ hana.at_key (impl map') geo_point = Ok 4242%N.
Proof.
  split.
  - apply (proj1 (set_type_oid_spec header_with_point t_int32
                    {| impl := [(geo_point, null_oid)] |} 4242%N)).
    reflexivity.
  - apply (proj1 (proj2 (set_type_oid_spec header_with_point geo_point
                    {| impl := [(geo_point, null_oid)] |} 4242%N))).
    + reflexivity.
    + simpl. left. reflexivity.
Defined.

(** C7 as claimed fails for a custom type the map has no entry for:
    nothing is stored, the call does not compile. *)
Lemma set_type_oid_unregistered :
  is_built_in header_with_point geo_point = false
  /\ register_types [app_other] = Ok {| impl := [(app_other, null_oid)] |}
  /\ set_type_oid header_with_point geo_point
       {| impl := [(app_other, null_oid)] |} 4242%N
     = Ill_formed "hana::at_key(map, key) requires the 'key' to be present in the 'map'".
Proof. repeat split. Qed.

(** C10: take a map built by [register_types<Ts...>()] and then changed
    by any calls of [set_type_oid].  Its keys are still [Ts].  For a
    listed type [T] that is not built-in, [set_type_oid<T>] succeeds,
    leaves [type_oid<U>] as it was for every other type [U], and leaves
    the keys, and so [empty], as they were at construction. *)
Theorem set_type_oid_frame specs Ts reg0 calls reg T id :
  register_types Ts = Ok reg0 ->
  set_type_oids specs calls reg0 = Ok reg ->
  In T Ts ->
  is_built_in specs T = false ->
  hana.keys (impl reg) = Ts
  /\ empty reg = empty reg0
  /\ exists reg',
      set_type_oid specs T reg id = Ok reg'
      /\ (forall U, U <> T -> type_oid specs U reg' = type_oid specs U reg)
      /\ hana.keys (impl reg') = Ts
      /\ empty reg' = empty reg0.
Proof.
  intros Hreg Hcalls Hin Hb.
  apply register_types_Ok in Hreg as [_ ->].
  pose proof (set_type_oids_keys _ _ _ _ Hcalls) as Hk. simpl in Hk.
  rewrite hana_facts.keys_null in Hk.
  split; [exact Hk|].
  split; [apply empty_keys; simpl; now rewrite hana_facts.keys_null|].
  destruct (set_type_oid_registered specs T reg id Hb) as [reg' Hset];
    [now rewrite Hk|].
  exists reg'. split; [exact Hset|].
  pose proof (set_type_oid_keys _ _ _ _ _ Hset) as Hk'.
  split; [|split].
  - intros U HU. unfold type_oid. destruct (BuiltIn specs U); [reflexivity|].
    apply set_type_oid_Ok in Hset as [_ Hset].
    now apply (hana_facts.at_key_assign_ne _ _ _ _ U Hset).
  - now rewrite Hk'.
  - apply empty_keys. simpl. rewrite hana_facts.keys_null. now rewrite Hk'.
Qed.

Lemma set_type_oid_frame_witness :
  let reg := {| impl := [(geo_point, null_oid); (app_other, 7%N)] |} in
  hana.keys (impl reg) = [geo_point; app_other]
  /\ empty reg = false
  /\ exists reg',
      set_type_oid header_with_point geo_point reg 4242%N = Ok reg'
      /\ (forall U, U <> geo_point ->
          type_oid header_with_point U reg' = type_oid header_with_point U reg)
      /\ hana.keys (impl reg') = [geo_point; app_other]
      /\ empty reg' = false.
Proof.
  apply (set_type_oid_frame header_with_point [geo_point; app_other]
           {| impl := [(geo_point, null_oid); (app_other, null_oid)] |}
           [(app_other, 7%N)]
           {| impl := [(geo_point, null_oid); (app_other, 7%N)] |}
           geo_point 4242%N).
  - reflexivity.
  - reflexivity.
  - simpl. left. reflexivity.
  - reflexivity.
Defined.

(** ** Nullables *)

(** The templates [allocate_nullable] can fill: those with a
    specialization of [allocate_nullable_impl] and the emplaceable
    ones. *)
Definition allocatable (W : nullable_template) : bool :=
  match W with
  | optional _ | scoped_ptr | unique_ptr default_delete | shared_ptr _ => true
  | unique_ptr (custom_deleter _) | weak_ptr _ => false
  end.


Section NullableFacts.
Context {A : Type}.
Variable value_init : A.
Implicit Types (h : heap A) (n : nullable A) (w p : handle A).

Lemma release_acquire (b : control_block A) : release (acquire b) = b.
Proof. destruct b. reflexivity. Qed.

Lemma lock_expired h w : expired h w = true -> lock h w = (h, empty_handle).
Proof. intros H. unfold lock. now rewrite H. Qed.

(** The temporary made by [lock] gives back what it took. *)
Lemma lock_destroy h w :
  shared_ptr_destroy (lock h w).1 (lock h w).2 = h.
Proof.
  unfold lock. destruct (expired h w); [reflexivity|].
  simpl. unfold shared_ptr_destroy.
  destruct (block w) as [c|]; [|reflexivity].
  rewrite alter_alter_eq. apply alter_id.
  intros b _. apply release_acquire.
Qed.

(** [is_null] leaves the heap as it found it. *)
Lemma is_null_heap h n : (is_null h n).1 = h.
Proof.
  destruct n as [l o|o|d o|l p|l w]; try reflexivity.
  unfold is_null. pose proof (lock_destroy h w) as H.
  destruct (lock h w) as [h1 s]. exact H.
Qed.

Lemma expired_empty h : expired h empty_handle = true.
Proof. reflexivity. Qed.

(** When the only owner of an object is destroyed, the [weak_ptr]s
    of the object are expired. *)
Lemma expired_last_owner h c b p w :
  h !! c = Some b -> use_count b = 1%nat ->
  block p = Some c -> block w = Some c ->
  expired (shared_ptr_destroy h p) w = true.
Proof.
  intros Hc Hb Hp Hw. unfold expired, weak_use_count, shared_ptr_destroy.
  rewrite Hp, Hw, lookup_alter_eq, Hc. simpl. now rewrite Hb.
Qed.


(** C6: [is_null] of a [weak_ptr] (boost or std) that is expired,
    because it was never assigned or because the owners of its object
    are gone, is [true]; the call is a total function of the heap and
    the pointer, it has no failing outcome, and it leaves the heap
    unchanged. *)
Theorem is_null_expired_weak_ptr h l w :
  expired h w = true ->
  is_null h (n_weak_ptr l w) = (h, true).
Proof.
  intros H. unfold is_null. now rewrite (lock_expired _ _ H).
Qed.



End NullableFacts.

Lemma is_null_expired_weak_ptr_witness :
  weak_use_count dead_heap (owner 1%positive) = O
  /\ is_null dead_heap (n_weak_ptr std (owner 1%positive)) = (dead_heap, true).
Proof.
  split; [reflexivity|].
  apply (is_null_expired_weak_ptr dead_heap std (owner 1%positive)).
  reflexivity.
Defined.



(** * Further properties of the nullable protocol *)

Section NullableProtocol.
Context {A : Type}.
Variable value_init : A.
Implicit Types (h : heap A) (n : nullable A) (w p : handle A).

Lemma init_nullable_Ok h n h1 n1 :
  init_nullable value_init h n = Ok (h1, n1) ->
  allocatable (template_of n) = true.
Proof.
  unfold init_nullable.
  destruct n as [l o|o|[|r] o|l p|l w]; try reflexivity; simpl.
  - discriminate.
  - destruct (lock h w) as [h' s]. discriminate.
Qed.

Lemma allocate_nullable_not_null h n h1 n1 :
  allocate_nullable value_init h n = Ok (h1, n1) ->
  is_null h1 n1 = (h1, false) /\ template_of n1 = template_of n.
Proof.
  destruct n as [l o|o|[|r] o|l p|l w]; simpl; try discriminate;
    intros [= <- <-]; split; reflexivity.
Qed.

Lemma is_null_eq h n : is_null h n = (h, (is_null h n).2).
Proof.
  rewrite <- (is_null_heap h n) at 2. now destruct (is_null h n).
Qed.

Lemma not_expired h w :
  expired h w = false ->
  exists c b, block w = Some c /\ h !! c = Some b /\ use_count b <> O.
Proof.
  unfold expired, weak_use_count. intros H.
  destruct (block w) as [c|]; [|discriminate].
  destruct (h !! c) as [b|] eqn:Hc; [|discriminate].
  exists c, b. split; [reflexivity|]. split; [exact Hc|]. intros H0.
  rewrite H0 in H. discriminate.
Qed.

(** A [weak_ptr] that is not expired locks to a [shared_ptr] with its
    own stored pointer, and the objects are where they were. *)
Lemma lock_not_expired h w c b :
  expired h w = false -> block w = Some c -> h !! c = Some b ->
  (lock h w).2 = w /\ managed <$> (lock h w).1 !! c = Some (managed b).
Proof.
  intros He Hw Hc. unfold lock. rewrite He, Hw. simpl.
  split; [reflexivity|]. now rewrite lookup_alter_eq, Hc.
Qed.

Lemma init_nullable_not_null h n :
  allocatable (template_of n) = true ->
  is_null h n = (h, false) ->
  init_nullable value_init h n = Ok (h, n).
Proof.
  intros Hal Hn. unfold init_nullable. rewrite Hn.
  destruct n as [l o|o|[|r] o|l p|l w]; try discriminate Hal; try reflexivity.
Qed.

(** [init_nullable] only fills a null wrapper: a wrapper that is not
    null, and the heap, are left as they are; so a second
    [init_nullable] after a first one changes nothing. *)
Theorem init_nullable_idempotent h n :
  (allocatable (template_of n) = true ->
   is_null h n = (h, false) ->
   init_nullable value_init h n = Ok (h, n))
  /\ (forall h1 n1,
      init_nullable value_init h n = Ok (h1, n1) ->
      is_null h1 n1 = (h1, false)
      /\ init_nullable value_init h1 n1 = Ok (h1, n1)).
Proof.
  split; [apply init_nullable_not_null|].
  intros h1 n1 Hinit.
  pose proof (init_nullable_Ok _ _ _ _ Hinit) as Hal.
  assert (Hnn : is_null h1 n1 = (h1, false) /\ template_of n1 = template_of n).
  { unfold init_nullable in Hinit. rewrite (is_null_eq h n) in Hinit.
    destruct (allocate_nullable value_init h n) as [[h2 n2]|] eqn:Halloc;
      [|discriminate].
    destruct (is_null h n).2 eqn:Hnull; injection Hinit as <- <-.
    - now apply allocate_nullable_not_null in Halloc.
    - split; [|reflexivity]. rewrite (is_null_eq h n), Hnull. reflexivity. }
  destruct Hnn as [Hnn Ht]. split; [exact Hnn|].
  apply init_nullable_not_null; [now rewrite Ht | exact Hnn].
Qed.

(** [is_null] and [unwrap_nullable] agree: [is_null] leaves the heap as
    it is, and it answers [true] exactly when dereferencing is
    undefined.  For a [shared_ptr] whose stored pointer points to the
    object of its control block this needs the block to be in the
    heap. *)
Theorem is_null_unwrap_nullable h n :
  (forall l p, n = n_shared_ptr l p -> stored p = to_managed ->
   exists c, block p = Some c /\ is_Some (h !! c)) ->
  exists b,
    is_null h n = (h, b)
    /\ (b = true <-> unwrap_nullable h n = None).
Proof.
  intros Hvalid. exists (is_null h n).2. split; [apply is_null_eq|].
  destruct n as [l o|o|d o|l p|l w]; simpl.
  - destruct o; split; congruence.
  - destruct o; split; congruence.
  - destruct o; split; congruence.
  - unfold handle_is_null, dereference.
    destruct (stored p) as [| |a] eqn:Hs; [split; congruence| |split; congruence].
    destruct (Hvalid l p eq_refl Hs) as (c & Hc & b & Hb).
    rewrite Hc, Hb. simpl. split; congruence.
  - destruct (expired h w) eqn:He.
    + rewrite (lock_expired _ _ He). split; intros _; reflexivity.
    + destruct (not_expired _ _ He) as (c & b & Hw & Hc & _).
      destruct (lock_not_expired h w c b He Hw Hc) as [Hl Hm].
      destruct (lock h w) as [h1 s]. simpl in Hl, Hm. subst s. simpl.
      unfold handle_is_null, dereference.
      destruct (stored w) as [| |a]; [split; congruence| |split; congruence].
      rewrite Hw, Hm. split; congruence.
Qed.

(** A [weak_ptr] whose object still has an owner tests and unwraps like
    a [shared_ptr] with the same stored pointer, and testing it leaves
    the heap, and so every use count, as it was.  When its stored
    pointer points to the object of its control block, it is not null
    and it unwraps to that object. *)
Theorem weak_ptr_not_expired h l l' w :
  expired h w = false ->
  exists c b,
    block w = Some c /\ h !! c = Some b
    /\ is_null h (n_weak_ptr l w) = is_null h (n_shared_ptr l' w)
    /\ unwrap_nullable h (n_weak_ptr l w) = unwrap_nullable h (n_shared_ptr l' w)
    /\ (stored w = to_managed ->
        is_null h (n_weak_ptr l w) = (h, false)
        /\ unwrap_nullable h (n_weak_ptr l w) = Some (managed b)).
Proof.
  intros He. destruct (not_expired _ _ He) as (c & b & Hw & Hc & _).
  exists c, b. split; [exact Hw|]. split; [exact Hc|].
  destruct (lock_not_expired h w c b He Hw Hc) as [Hl Hm].
  assert (Hn : is_null h (n_weak_ptr l w) = (h, handle_is_null w)).
  { rewrite is_null_eq. f_equal. simpl.
    destruct (lock h w) as [h1 s]. simpl in Hl. now subst s. }
  assert (Hu : unwrap_nullable h (n_weak_ptr l w) = dereference h w).
  { simpl. destruct (lock h w) as [h1 s]. simpl in Hl, Hm. subst s.
    unfold dereference. destruct (stored w); try reflexivity.
    now rewrite Hw, Hm, Hc. }
  split; [exact Hn|]. split; [exact Hu|].
  intros Hs. rewrite Hn, Hu. unfold handle_is_null, dereference.
  rewrite Hs, Hw, Hc. split; reflexivity.
Qed.

(** [allocate_nullable] of a [shared_ptr] makes a control block at an
    address the heap did not use, with one owner and a
    value-initialized object; the block the pointer owned before loses
    one owner, and every other block is untouched. *)
Theorem allocate_nullable_shared_ptr h l p :
  (forall c0, block p = Some c0 -> is_Some (h !! c0)) ->
  exists h1 c,
    allocate_nullable value_init h (n_shared_ptr l p) = Ok (h1, n_shared_ptr l (owner c))
    /\ h !! c = None
    /\ h1 !! c = Some {| use_count := 1; managed := value_init |}
    /\ (forall c0, block p = Some c0 -> h1 !! c0 = release <$> h !! c0)
    /\ (forall c', c' <> c -> block p <> Some c' -> h1 !! c' = h !! c').
Proof.
  intros Hvalid. simpl.
  set (c := fresh (dom h)).
  assert (Hc : h !! c = None).
  { apply not_elem_of_dom. apply is_fresh. }
  assert (Hp : block p <> Some c).
  { intros Hp. destruct (Hvalid c Hp) as [b Hb]. congruence. }
  eexists _, c. split; [reflexivity|]. split; [exact Hc|].
  unfold shared_ptr_destroy.
  split; [|split].
  - destruct (block p) as [c0|]; simpl.
    + rewrite lookup_alter_ne by congruence. apply lookup_insert_eq.
    + apply lookup_insert_eq.
  - intros c0 Hc0. rewrite Hc0. rewrite lookup_alter_eq.
    rewrite lookup_insert_ne by congruence. reflexivity.
  - intros c' Hne Hp'. destruct (block p) as [c0|]; simpl.
    + rewrite lookup_alter_ne by congruence. now rewrite lookup_insert_ne.
    + now rewrite lookup_insert_ne.
Qed.

(** [reset_nullable] of a [shared_ptr] that shares a control block
    empties it and gives up its share of the object.  A [weak_ptr] of
    the same object is null afterwards when the [shared_ptr] was the
    only owner; when there are other owners and the [weak_ptr] points
    to the object, it is still not null. *)
Theorem reset_nullable_shared_ptr h l l' c b p w :
  h !! c = Some b ->
  block p = Some c ->
  block w = Some c ->
  exists h1,
    reset_nullable h (n_shared_ptr l p) = Ok (h1, n_shared_ptr l empty_handle)
    /\ weak_use_count h1 w = pred (use_count b)
    /\ (Nat.leb (use_count b) 1 = true ->
        is_null h1 (n_weak_ptr l' w) = (h1, true))
    /\ (Nat.leb (use_count b) 1 = false -> stored w = to_managed ->
        is_null h1 (n_weak_ptr l' w) = (h1, false)).
Proof.
  intros Hc Hp Hw. eexists. split; [reflexivity|].
  assert (Hu : weak_use_count (shared_ptr_destroy h p) w = pred (use_count b)).
  { unfold weak_use_count, shared_ptr_destroy.
    rewrite Hp, Hw, lookup_alter_eq, Hc. reflexivity. }
  split; [exact Hu|]. split.
  - intros Hle.
    assert (He : expired (shared_ptr_destroy h p) w = true).
    { unfold expired. rewrite Hu.
      destruct (use_count b) as [|[|k]]; [reflexivity | reflexivity | discriminate]. }
    unfold is_null. now rewrite (lock_expired _ _ He).
  - intros Hle Hs.
    assert (He : expired (shared_ptr_destroy h p) w = false).
    { unfold expired. rewrite Hu.
      destruct (use_count b) as [|[|k]]; [discriminate | discriminate | reflexivity]. }
    rewrite is_null_eq. f_equal. simpl. unfold lock. rewrite He. simpl.
    unfold handle_is_null. now rewrite Hs.
Qed.

End NullableProtocol.

Lemma init_nullable_idempotent_witness :
  init_nullable 0 (∅ : heap Z) (n_optional std (Some 5)) = Ok (∅, n_optional std (Some 5)).
Proof.
  apply (proj1 (init_nullable_idempotent 0 (∅ : heap Z) (n_optional std (Some 5))));
    reflexivity.
Defined.

Lemma is_null_unwrap_nullable_witness :
  exists b,
    is_null one_owner (n_shared_ptr std (owner 1%positive)) = (one_owner, b)
    /\ (b = true <-> unwrap_nullable one_owner (n_shared_ptr std (owner 1%positive)) = None).
Proof.
  apply (is_null_unwrap_nullable one_owner (n_shared_ptr std (owner 1%positive))).
  intros l p [= _ Hp] _. subst p. exists 1%positive. split; [reflexivity|].
  exists {| use_count := 1; managed := 7 |}. reflexivity.
Defined.

Lemma weak_ptr_not_expired_witness :
  is_null one_owner (n_weak_ptr std (owner 1%positive)) = (one_owner, false)
  /\ unwrap_nullable one_owner (n_weak_ptr std (owner 1%positive)) = Some 7.
Proof.
  destruct (weak_ptr_not_expired one_owner std boost (owner 1%positive) eq_refl)
    as (c & b & Hc & Hb & _ & _ & H).
  injection Hc as <-. injection Hb as <-.
  exact (H eq_refl).
Defined.

Lemma allocate_nullable_shared_ptr_witness :
  exists h1 c,
    allocate_nullable 0 one_owner (n_shared_ptr std (owner 1%positive))
    = Ok (h1, n_shared_ptr std (owner c))
    /\ one_owner !! c = None
    /\ h1 !! c = Some {| use_count := 1; managed := 0 |}
    /\ (forall c0, block (owner 1%positive : handle Z) = Some c0 ->
        h1 !! c0 = release <$> one_owner !! c0)
    /\ (forall c', c' <> c -> block (owner 1%positive : handle Z) <> Some c' ->
        h1 !! c' = one_owner !! c').
Proof.
  apply (allocate_nullable_shared_ptr 0 one_owner std (owner 1%positive)).
  intros c0 [= Hc]. subst c0. exists {| use_count := 1; managed := 7 |}. reflexivity.
Defined.

Lemma reset_nullable_shared_ptr_witness :
  exists h1,
    reset_nullable one_owner (n_shared_ptr std (owner 1%positive))
    = Ok (h1, n_shared_ptr std empty_handle)
    /\ weak_use_count h1 (owner 1%positive) = O
    /\ is_null h1 (n_weak_ptr std (owner 1%positive)) = (h1, true).
Proof.
  destruct (reset_nullable_shared_ptr one_owner std std 1%positive
              {| use_count := 1; managed := 7 |} (owner 1%positive) (owner 1%positive)
              eq_refl eq_refl eq_refl)
    as (h1 & H1 & H2 & H3 & _).
  exists h1. split; [exact H1|]. split; [exact H2|]. exact (H3 eq_refl).
Defined.


(** * Further properties of the type traits *)

Lemma type_traits_nullable specs W T :
  find_specialization specs (t_nullable W T) = None ->
  type_traits specs (t_nullable W T) = type_traits specs T.
Proof. intros H. rewrite type_traits_unfold, H. reflexivity. Qed.

Lemma size_of_fixed specs T d n v :
  type_traits specs T = Some d -> size d = bytes n -> size_of specs T v = Ok n.
Proof.
  intros Ht Hs. unfold size_of.
  rewrite size_of_instantiates_unfold. unfold size_of_instantiates_with.
  rewrite Ht, Hs. rewrite size_of_value_unfold. unfold size_of_value_with.
  rewrite Ht. destruct d as [nm o sz]. simpl in Hs. subst sz. reflexivity.
Qed.

(** A nullable wrapper without a specialization of its own is built-in
    exactly when its inner type is.  Around a built-in type it has the
    oid of the type, for every map.  Around a type that is not built-in
    [type_oid] looks the wrapper itself up in the map, so a map made by
    [register_types] without the wrapper in its list is rejected, even
    if the inner type is listed.  [size_of] of the wrapper is the size
    of a fixed size inner type, and does not compile around a dynamic
    size one. *)
Theorem nullable_wrapper_inherits specs W T :
  find_specialization specs (t_nullable W T) = None ->
  is_built_in specs (t_nullable W T) = is_built_in specs T
  /\ (is_built_in specs T = true ->
      forall reg, type_oid specs (t_nullable W T) reg = type_oid specs T reg)
  /\ (is_built_in specs T = false ->
      forall Ts reg, register_types Ts = Ok reg -> ~ In (t_nullable W T) Ts ->
      is_Ok (type_oid specs (t_nullable W T) reg) = false)
  /\ (forall d n v, type_traits specs T = Some d -> size d = bytes n ->
      size_of specs (t_nullable W T) v = Ok n)
  /\ (forall d v, type_traits specs T = Some d -> size d = dynamic_size ->
      is_Ok (size_of specs (t_nullable W T) v) = false).
Proof.
  intros Hnone. pose proof (type_traits_nullable _ _ _ Hnone) as Ht.
  assert (Hb : is_built_in specs (t_nullable W T) = is_built_in specs T).
  { unfold is_built_in. now rewrite Ht. }
  split; [exact Hb|]. split; [|split; [|split]].
  - intros HT reg. unfold type_oid, BuiltIn. now rewrite Hb, HT, Ht.
  - intros HT Ts reg Hreg Hn. unfold type_oid, BuiltIn. rewrite Hb, HT.
    apply register_types_Ok in Hreg as [_ ->]. simpl.
    apply hana_facts.at_key_absent. now rewrite hana_facts.keys_null.
  - intros d n v HT Hs. apply (size_of_fixed specs _ d); [now rewrite Ht | exact Hs].
  - intros d v HT Hs. unfold size_of. simpl.
    unfold size_of_instantiates_with. rewrite Ht, HT, Hs. reflexivity.
Qed.

Lemma nullable_wrapper_inherits_witness :
  is_built_in header_with_point (t_nullable (optional std) t_int32) = true
  /\ (forall reg, type_oid header_with_point (t_nullable (optional std) t_int32) reg
                  = Ok pg_type.INT4OID)
  /\ is_Ok (type_oid header_with_point (t_nullable (optional std) geo_point)
              {| impl := [(geo_point, null_oid)] |}) = false.
Proof.
  pose proof (nullable_wrapper_inherits header_with_point (optional std) t_int32 eq_refl)
    as (H1 & H2 & _).
  pose proof (nullable_wrapper_inherits header_with_point (optional std) geo_point eq_refl)
    as (_ & _ & H3 & _).
  split; [exact H1|]. split.
  - intros reg. exact (H2 eq_refl reg).
  - apply (H3 eq_refl [geo_point]); [reflexivity|].
    simpl. intros [H|[]]. discriminate H.
Defined.

Lemma expand_specializes_family flag d U :
  In U (map fst (expand flag d)) ->
  U = defined_type d
  \/ U = t_vector (defined_type d)
  \/ exists W, array_nullable flag W = true
               /\ U = t_vector (t_nullable W (defined_type d)).
Proof.
  destruct d as [T N o s|T N o|T N o ao s|T N s]; simpl;
    unfold define_type_array_ozo_optional; destruct flag; simpl;
    intros H;
    repeat match type of H with
           | _ \/ _ => destruct H as [H|H]
           | False => destruct H
           end;
    subst U; first
      [ left; reflexivity
      | right; left; reflexivity
      | right; right; eexists; split; [|reflexivity]; reflexivity ].
Qed.

Lemma expand_and_array_nullable flag T N o ao s W :
  array_nullable flag W = true ->
  In (t_vector (t_nullable W T),
      {| name := N ++ "[]"; oid := ao; size := dynamic_size |})
     (expand flag (OZO_PG_DEFINE_TYPE_AND_ARRAY T N o ao s)).
Proof.
  intros HW. simpl. unfold define_type_array_ozo_optional.
  destruct W as [[|]| |[|]|[|]|[|]]; destruct flag; try discriminate HW;
    simpl; tauto.
Qed.

(** [OZO_PG_DEFINE_TYPE_AND_ARRAY(Type, Name, Oid, ArrayOid, Size)]
    gives the vectors of [boost::optional<Type>], [std::optional<Type>]
    (when available), [boost::scoped_ptr<Type>], [std::unique_ptr<Type>]
    and the two [shared_ptr<Type>] the traits of [std::vector<Type>].
    A vector of [weak_ptr]s, or of [unique_ptr]s with a deleter of their
    own, gets no traits from the macros when they are applied to types
    that are neither vectors nor nullable wrappers, as in the header. *)
Theorem array_of_nullables_type_traits flag tu T N o ao s W :
  one_definition (specializations flag tu) ->
  In (OZO_PG_DEFINE_TYPE_AND_ARRAY T N o ao s) tu ->
  (array_nullable flag W = true ->
   type_traits (specializations flag tu) (t_vector (t_nullable W T))
   = Some {| name := N ++ "[]"; oid := ao; size := dynamic_size |})
  /\ (array_nullable flag W = false ->
      Forall (fun d => plain_type (defined_type d) = true) tu ->
      type_traits (specializations flag tu) (t_vector (t_nullable W T)) = None).
Proof.
  intros Hone Hin. split.
  - intros HW. rewrite type_traits_unfold.
    rewrite (find_specialization_In _ (t_vector (t_nullable W T))
               {| name := N ++ "[]"; oid := ao; size := dynamic_size |} Hone);
      [reflexivity|].
    apply (in_specializations flag tu _ _ Hin).
    now apply expand_and_array_nullable.
  - intros HW Hall. rewrite type_traits_unfold.
    rewrite find_specialization_None; [reflexivity|].
    intros HU. unfold specializations in HU.
    rewrite <- flat_map_concat_map in HU.
    apply in_map_iff in HU as [[U e] [HU Hin']]. simpl in HU. subst U.
    apply in_flat_map in Hin' as [d [Hd Hin']].
    assert (Hfst : In (t_vector (t_nullable W T)) (map fst (expand flag d))).
    { change (t_vector (t_nullable W T)) with (fst (t_vector (t_nullable W T), e)).
      now apply in_map. }
    rewrite Forall_forall in Hall.
    assert (Hd' : plain_type (defined_type d) = true).
    { apply Hall. apply list_elem_of_In. exact Hd. }
    apply expand_specializes_family in Hfst as [Heq|[Heq|[W' [HW' Heq]]]].
    + rewrite <- Heq in Hd'. discriminate.
    + injection Heq as Heq. rewrite <- Heq in Hd'. discriminate.
    + injection Heq as -> _. congruence.
Qed.

Lemma array_of_nullables_type_traits_witness :
  type_traits header_with_point (t_vector (t_nullable (shared_ptr std) geo_point))
  = Some {| name := "geo.point[]"; oid := null_oid; size := dynamic_size |}
  /\ type_traits header_with_point (t_vector (t_nullable (weak_ptr std) geo_point)) = None.
Proof.
  assert (Hone : one_definition header_with_point).
  { apply (bool_decide_unpack _). vm_compute. exact I. }
  assert (Hin : In (OZO_PG_DEFINE_TYPE_AND_ARRAY geo_point "geo.point"
                      null_oid null_oid dynamic_size)
                   (builtin_definitions
                    ++ [OZO_PG_DEFINE_TYPE_AND_ARRAY geo_point "geo.point"
                          null_oid null_oid dynamic_size])).
  { apply in_or_app. right. left. reflexivity. }
  split.
  - apply (proj1 (array_of_nullables_type_traits true _ geo_point "geo.point"
                    null_oid null_oid dynamic_size (shared_ptr std) Hone Hin)).
    reflexivity.
  - apply (proj2 (array_of_nullables_type_traits true _ geo_point "geo.point"
                    null_oid null_oid dynamic_size (weak_ptr std) Hone Hin)).
    + reflexivity.
    + apply (bool_decide_unpack _). vm_compute. exact I.
Defined.

(** * Further properties of the OID map *)

Module hana_updates.
Import hana.

Lemma at_key_present m T : In T (keys m) -> exists v, at_key m T = Ok v.
Proof.
  induction m as [|[U w] m IH]; simpl; [tauto|].
  intros Hin. destruct (decide (U = T)) as [->|Hne]; [eauto|].
  apply IH. tauto.
Qed.

Lemma assign_missing m T v :
  ~ In T (keys m) ->
  assign m T v
  = Ill_formed "hana::at_key(map, key) requires the 'key' to be present in the 'map'".
Proof.
  induction m as [|[U w] m IH]; simpl; intros Hn; [reflexivity|].
  destruct (decide (U = T)) as [->|_]; [tauto|].
  rewrite IH by tauto. reflexivity.
Qed.

Lemma assign_assign m T a b m1 :
  assign m T a = Ok m1 -> assign m1 T b = assign m T b.
Proof.
  revert m1. induction m as [|[U w] m IH]; simpl; intros m1; [discriminate|].
  destruct (decide (U = T)) as [->|Hne].
  - intros [= <-]. simpl. destruct (decide (T = T)); [reflexivity | congruence].
  - destruct (assign m T a) as [m'|]; simpl; [|discriminate].
    intros [= <-]. simpl. destruct (decide (U = T)); [congruence|].
    now rewrite (IH m' eq_refl).
Qed.

Lemma assign_same m T v : at_key m T = Ok v -> assign m T v = Ok m.
Proof.
  induction m as [|[U w] m IH]; simpl; [discriminate|].
  destruct (decide (U = T)) as [->|Hne].
  - intros [= ->]. reflexivity.
  - intros H. now rewrite (IH H).
Qed.

Lemma assign_comm m T U a b m1 m2 :
  T <> U -> assign m T a = Ok m1 -> assign m1 U b = Ok m2 ->
  exists m1', assign m U b = Ok m1' /\ assign m1' T a = Ok m2.
Proof.
  intros Hne. revert m1 m2.
  induction m as [|[V w] m IH]; simpl; intros m1 m2; [discriminate|].
  destruct (decide (V = T)) as [->|HT].
  - intros [= <-]. simpl. destruct (decide (T = U)); [congruence|].
    destruct (assign m U b) as [m'|]; simpl; [|discriminate].
    intros [= <-]. eexists. split; [reflexivity|]. simpl.
    destruct (decide (T = T)); [reflexivity | congruence].
  - destruct (assign m T a) as [m'|] eqn:Ha; simpl; [|discriminate].
    intros [= <-]. simpl. destruct (decide (V = U)) as [->|HU].
    + intros [= <-]. eexists. split; [reflexivity|]. simpl.
      destruct (decide (U = T)); [congruence|]. now rewrite Ha.
    + destruct (assign m' U b) as [m''|] eqn:Hb; simpl; [|discriminate].
      intros [= <-]. destruct (IH m' m'' eq_refl Hb) as (m1' & H1 & H2).
      rewrite H1. simpl. eexists. split; [reflexivity|]. simpl.
      destruct (decide (V = T)); [congruence|]. now rewrite H2.
Qed.
End hana_updates.

(** [type_oid<T>(map)] compiles exactly when [T] is built-in or the map
    has an entry for [T]: for a type that is not built-in and is not
    among the keys, reading the map is rejected by [hana::map].
    [accepts_oid] compiles in the same cases. *)
Theorem type_oid_defined specs T reg id :
  is_Ok (type_oid specs T reg)
  = is_built_in specs T || bool_decide (T ∈ hana.keys (impl reg))
  /\ is_Ok (accepts_oid specs T reg id) = is_Ok (type_oid specs T reg).
Proof.
  split.
  - unfold type_oid, BuiltIn. destruct (is_built_in specs T) eqn:Hb; simpl.
    + apply is_built_in_traits in Hb as (d & Hd & _). now rewrite Hd.
    + destruct (decide (T ∈ hana.keys (impl reg))) as [Hin|Hn].
      * rewrite (bool_decide_eq_true_2 _ Hin). apply list_elem_of_In in Hin.
        destruct (hana_updates.at_key_present _ _ Hin) as [v Hv]. now rewrite Hv.
      * rewrite (bool_decide_eq_false_2 _ Hn).
        apply hana_facts.at_key_absent. now rewrite <- list_elem_of_In.
  - unfold accepts_oid. destruct (type_oid specs T reg); reflexivity.
Qed.

(** Two [set_type_oid] calls for one type: the second value is the one
    kept.  Calls for two different types can be swapped.  Storing the
    oid a type already has changes nothing. *)
Theorem set_type_oid_compose specs T U reg a b :
  bind (set_type_oid specs T reg a) (fun r => set_type_oid specs T r b)
  = set_type_oid specs T reg b
  /\ (T <> U -> forall reg',
      bind (set_type_oid specs T reg a) (fun r => set_type_oid specs U r b) = Ok reg'
      -> bind (set_type_oid specs U reg b) (fun r => set_type_oid specs T r a) = Ok reg')
  /\ (is_built_in specs T = false -> type_oid specs T reg = Ok a ->
      set_type_oid specs T reg a = Ok reg).
Proof.
  split; [|split].
  - unfold set_type_oid. destruct (is_built_in specs T) eqn:Hb; [reflexivity|].
    destruct (hana.assign (impl reg) T a) as [m1|] eqn:Ha; simpl.
    + now rewrite (hana_updates.assign_assign _ _ _ b _ Ha).
    + destruct (decide (T ∈ hana.keys (impl reg))) as [Hin|Hnin].
      * apply list_elem_of_In in Hin.
        destruct (hana_facts.assign_present _ _ a Hin) as [m Hm]. congruence.
      * rewrite list_elem_of_In in Hnin.
        rewrite (hana_updates.assign_missing _ _ a Hnin) in Ha.
        rewrite (hana_updates.assign_missing _ _ b Hnin).
        injection Ha as <-. reflexivity.
  - intros Hne reg' H.
    destruct (set_type_oid specs T reg a) as [r1|] eqn:H1; simpl in H; [|discriminate].
    apply set_type_oid_Ok in H1 as [HbT H1].
    apply set_type_oid_Ok in H as [HbU H2].
    destruct (hana_updates.assign_comm _ _ _ _ _ _ _ Hne H1 H2) as (m1' & H3 & H4).
    unfold set_type_oid. rewrite HbU, H3. simpl. rewrite HbT, H4. simpl.
    now destruct reg'.
  - intros Hb Hq. rewrite (type_oid_custom _ _ _ Hb) in Hq.
    unfold set_type_oid. rewrite Hb, (hana_updates.assign_same _ _ _ Hq). simpl.
    now destruct reg.
Qed.

Lemma set_type_oid_compose_witness :
  let reg := {| impl := [(geo_point, null_oid); (app_other, null_oid)] |} in
  let reg' := {| impl := [(geo_point, 4242%N); (app_other, 7%N)] |} in
  bind (set_type_oid header_with_point app_other reg 7%N)
       (fun r => set_type_oid header_with_point geo_point r 4242%N) = Ok reg'
  /\ set_type_oid header_with_point geo_point reg' 4242%N = Ok reg'.
Proof.
  split.
  - apply (proj1 (proj2 (set_type_oid_compose header_with_point geo_point app_other
                           {| impl := [(geo_point, null_oid); (app_other, null_oid)] |}
                           4242%N 7%N))).
    + discriminate.
    + reflexivity.
  - apply (proj2 (proj2 (set_type_oid_compose header_with_point geo_point app_other
                           {| impl := [(geo_point, 4242%N); (app_other, 7%N)] |}
                           4242%N 7%N))); reflexivity.
Defined.

Lemma set_type_oids_at_key specs calls reg reg' T v :
  set_type_oids specs calls reg = Ok reg' ->
  hana.at_key (impl reg) T = Ok v ->
  hana.at_key (impl reg') T = Ok (last_set calls T v).
Proof.
  revert reg v. induction calls as [|[U id] calls IH]; simpl; intros reg v.
  - intros [= <-] Hv. exact Hv.
  - destruct (set_type_oid specs U reg id) as [reg1|] eqn:H1; simpl; [|discriminate].
    intros Hrest Hv. apply set_type_oid_Ok in H1 as [_ H1].
    unfold last_set. simpl. destruct (decide (U = T)) as [->|Hne].
    + apply (IH reg1 id Hrest). now apply hana_facts.at_key_assign_eq in H1.
    + apply (IH reg1 v Hrest).
      rewrite (hana_facts.at_key_assign_ne _ _ _ _ T H1); [exact Hv | congruence].
Qed.

(** After any sequence of [set_type_oid] calls on a map made by
    [register_types], [type_oid] of a listed type that is not built-in
    is the oid of the last call for the type, and [null_oid] when the
    type was never set. *)
Theorem set_type_oids_last_write specs Ts reg0 calls reg T :
  register_types Ts = Ok reg0 ->
  set_type_oids specs calls reg0 = Ok reg ->
  In T Ts ->
  is_built_in specs T = false ->
  type_oid specs T reg = Ok (last_set calls T null_oid).
Proof.
  intros Hreg Hcalls Hin Hb. rewrite (type_oid_custom _ _ _ Hb).
  apply (set_type_oids_at_key specs calls reg0 reg T null_oid Hcalls).
  apply register_types_Ok in Hreg as [_ ->]. simpl.
  now apply hana_facts.at_key_null.
Qed.

Lemma set_type_oids_last_write_witness :
  type_oid header_with_point geo_point
    {| impl := [(geo_point, 9%N); (app_other, 7%N)] |} = Ok 9%N.
Proof.
  apply (set_type_oids_last_write header_with_point [geo_point; app_other]
           {| impl := [(geo_point, null_oid); (app_other, null_oid)] |}
           [(geo_point, 4242%N); (app_other, 7%N); (geo_point, 9%N)]
           {| impl := [(geo_point, 9%N); (app_other, 7%N)] |} geo_point).
  - reflexivity.
  - reflexivity.
  - simpl. left. reflexivity.
  - reflexivity.
Defined.

(** For pairwise distinct types, [empty] of the map made by
    [register_types<Ts...>()], and of every map that calls of
    [set_type_oid] make of it, holds exactly when no type is listed. *)
Theorem empty_iff_no_types specs Ts :
  NoDup Ts ->
  exists reg,
    register_types Ts = Ok reg
    /\ (empty reg = true <-> Ts = [])
    /\ (forall calls reg',
        set_type_oids specs calls reg = Ok reg' ->
        (empty reg' = true <-> Ts = [])).
Proof.
  intros Hnd. eexists. split; [now apply register_types_NoDup|].
  assert (He : forall reg', hana.keys (impl reg') = Ts ->
            (empty reg' = true <-> Ts = [])).
  { intros reg' Hk. unfold empty, hana.length.
    rewrite <- (length_map fst (impl reg')).
    change (map fst (impl reg')) with (hana.keys (impl reg')). rewrite Hk.
    destruct Ts; simpl; split; congruence. }
  split.
  - apply He. apply hana_facts.keys_null.
  - intros calls reg' Hcalls. apply He.
    rewrite (set_type_oids_keys _ _ _ _ Hcalls). apply hana_facts.keys_null.
Qed.

Lemma empty_iff_no_types_witness :
  exists reg,
    register_types [geo_point; app_other] = Ok reg
    /\ (empty reg = true <-> [geo_point; app_other] = [])
    /\ (forall calls reg',
        set_type_oids header_with_point calls reg = Ok reg' ->
        (empty reg' = true <-> [geo_point; app_other] = [])).
Proof.
  apply (empty_iff_no_types header_with_point [geo_point; app_other]).
  apply (bool_decide_unpack _). vm_compute. exact I.
Defined.

(** * Further properties of [size_of] *)

Lemma size_of_range_nil specs T d U :
  type_traits specs T = Some d -> size d = dynamic_size -> value_type T = Some U ->
  size_of specs T (range [])
  = if size_of_instantiates specs U then Ok 0
    else Ill_formed "no matching function for call to size_of".
Proof.
  intros Ht Hs HU. unfold size_of.
  rewrite size_of_instantiates_unfold, HU. simpl.
  unfold size_of_instantiates_with. rewrite Ht, Hs.
  destruct (size_of_instantiates specs U); [|reflexivity].
  rewrite size_of_value_unfold, HU. unfold size_of_value_with.
  rewrite Ht. destruct d as [nm o sz]. simpl in Hs. subst sz. reflexivity.
Qed.

Lemma size_of_range_cons specs T d U x l e :
  type_traits specs T = Some d -> size d = dynamic_size -> value_type T = Some U ->
  size_of specs U x = Ok e ->
  size_of specs T (range (x :: l)) = Ok (size_t_mul (std_size (x :: l)) e).
Proof.
  intros Ht Hs HU He. apply size_of_Ok in He as [Hi ->].
  unfold size_of. rewrite size_of_instantiates_unfold, HU. simpl.
  unfold size_of_instantiates_with. rewrite Ht, Hs, Hi.
  rewrite size_of_value_unfold, HU. unfold size_of_value_with.
  rewrite Ht. destruct d as [nm o sz]. simpl in Hs. subst sz.
  rewrite std_size_cons. reflexivity.
Qed.

(** [size_of] of a range whose element type has the fixed size [n] is
    the number of elements times [n] as a [std::size_t], for every
    number of elements and whatever the elements hold; it is the exact
    product when that fits in 64 bits. *)
Theorem size_of_fixed_elements specs T d U e n l :
  type_traits specs T = Some d -> size d = dynamic_size ->
  value_type T = Some U ->
  type_traits specs U = Some e -> size e = bytes n ->
  size_of specs T (range l) = Ok (size_t_mul (std_size l) n)
  /\ (0 <= std_size l * n < size_t_modulus ->
      size_of specs T (range l) = Ok (std_size l * n)).
Proof.
  intros Ht Hs HU He Hn.
  assert (H : size_of specs T (range l) = Ok (size_t_mul (std_size l) n)).
  { destruct l as [|x l].
    - rewrite (size_of_range_nil specs T d U Ht Hs HU).
      pose proof (size_of_fixed specs U e n (range []) He Hn) as HUok.
      apply size_of_Ok in HUok as [-> _]. reflexivity.
    - apply (size_of_range_cons specs T d U); try assumption.
      now apply (size_of_fixed specs U e n). }
  split; [exact H|].
  intros Hfit. rewrite H. now rewrite size_t_mul_exact.
Qed.

Lemma size_of_fixed_elements_witness :
  size_of header (t_vector t_int64) (range [object [1]; object [2; 3]; range []])
  = Ok 24.
Proof.
  apply (proj2 (size_of_fixed_elements header (t_vector t_int64)
                  {| name := "int8[]"; oid := 1016%N; size := dynamic_size |}
                  t_int64
                  {| name := "int8"; oid := pg_type.INT8OID; size := bytes 8 |}
                  8 [object [1]; object [2; 3]; range []]
                  eq_refl eq_refl eq_refl eq_refl eq_refl)).
  vm_compute. split; [discriminate | reflexivity].
Defined.

(** [size_of] of a range of a dynamic size type compiles exactly when
    [size_of] of its element type does, whatever the values: an empty
    range of elements without a [size_of] is rejected, it does not
    give 0. *)
Theorem size_of_range_defined specs T d U v v' :
  type_traits specs T = Some d -> size d = dynamic_size ->
  value_type T = Some U ->
  is_Ok (size_of specs T v) = is_Ok (size_of specs U v').
Proof.
  intros Ht Hs HU. unfold size_of.
  rewrite (size_of_instantiates_unfold specs T), HU. simpl.
  unfold size_of_instantiates_with at 1. rewrite Ht, Hs.
  destruct (size_of_instantiates specs U); reflexivity.
Qed.

Lemma size_of_range_defined_witness :
  is_Ok (size_of header (t_vector (t_nullable (optional std) t_string)) (range []))
  = false.
Proof.
  apply (size_of_range_defined header (t_vector (t_nullable (optional std) t_string))
           {| name := "text[]"; oid := pg_type.TEXTARRAYOID; size := dynamic_size |}
           (t_nullable (optional std) t_string) (range []) (range []));
    reflexivity.
Defined.
